(** * IRS 990 XML extraction: a shallow embedding of [scripts/xml_extraction.py]

    The development follows the layout of the script: the utilities
    ([safe_text], [coalesce]), the three parser functions ([parse_return],
    [parse_officers], [parse_grants]), the composer ([return_tree]), the
    in-memory part of [export_to_csv] and the loop of the main code.

    Python values of type [Optional[str]] are [option string]: [None] is
    Python's [None] and [Some s] is the string [s].  Exceptions are modelled
    by the [result] monad below. *)

From Stdlib Require Import Ascii.
From stdpp Require Import gmap strings list fin_maps.

(** ** Exceptions *)

Inductive exn := TypeError | AttributeError.

Inductive result (A : Type) :=
  | Ok (a : A)
  | Raise (e : exn).
Arguments Ok {A} a.
Arguments Raise {A} e.

Global Instance result_ret : MRet result := λ A a, Ok a.
Global Instance result_bind : MBind result := λ A B f m,
  match m with
  | Ok a => f a
  | Raise e => Raise e
  end.

Global Instance result_fmap : FMap result := λ A B f m,
  match m with
  | Ok a => Ok (f a)
  | Raise e => Raise e
  end.

Definition returns {A} (m : result A) : Prop := ∃ a, m = Ok a.

(** ** ElementTree elements

    An element carries its tag, its [text] attribute ([None] for an element
    such as [<A/>] that has no character data before its first child) and its
    children in document order.  Every document uses the single IRS e-file
    namespace, which the script passes to each lookup as the default
    namespace; tags are therefore written without it. *)

#[warnings="-register-all"]
Inductive Element :=
  | Elem (tag : string) (text : option string) (children : list Element).

Definition tag (e : Element) : string :=
  match e with Elem t _ _ => t end.
Definition text (e : Element) : option string :=
  match e with Elem _ x _ => x end.
Definition children (e : Element) : list Element :=
  match e with Elem _ _ cs => cs end.

(** [Element.iter()]: the element and all its descendants in document
    (pre-)order. *)
Fixpoint iter (e : Element) : list Element :=
  match e with
  | Elem _ _ cs => e :: flat_map iter cs
  end.

(** The proper descendants: ElementPath's [//] step skips the context
    element itself. *)
Definition descendants (e : Element) : list Element :=
  flat_map iter (children e).

(** ** The ElementPath fragment used by the script

    [.//T] is [Desc T], a following [/T] (or a leading bare [T]) is
    [Child T], and [/*] is [Star]. *)

Inductive step :=
  | Desc (t : string)
  | Child (t : string)
  | Star.

Definition has_tag (t : string) (e : Element) : bool :=
  bool_decide (tag e = t).

Definition select (s : step) (context : list Element) : list Element :=
  flat_map (λ e,
    match s with
    | Desc t => List.filter (has_tag t) (descendants e)
    | Child t => List.filter (has_tag t) (children e)
    | Star => children e
    end) context.

Definition findall (e : Element) (path : list step) : list Element :=
  foldl (λ context s, select s context) [e] path.

Definition find (e : Element) (path : list step) : option Element :=
  head (findall e path).

(** ** Utilities *)

(** The argument of [safe_text] is [None], one [ET.Element], or anything
    else, which at every call site is the list returned by [findall]. *)
Inductive located :=
  | Nothing
  | Single (e : Element)
  | Plural (es : list Element).

Definition of_find (o : option Element) : located :=
  match o with
  | None => Nothing
  | Some e => Single e
  end.

(** [' '.join(items)]: every item has to be a [str]. *)
Fixpoint strs (items : list (option string)) : result (list string) :=
  match items with
  | [] => Ok []
  | None :: _ => Raise TypeError
  | Some s :: items' => ss ← strs items'; mret (s :: ss)
  end.

Definition join (sep : string) (items : list (option string))
  : result string :=
  ss ← strs items; mret (String.concat sep ss).

Definition safe_text (elements : located) : result (option string) :=
  match elements with
  | Nothing => Ok (Some "")
  | Single e => Ok (text e)
  | Plural es => s ← join " " (map text es); mret (Some s)
  end.

(** [coalesce]: the first of its arguments that is not [None], else
    [None]. *)
Fixpoint coalesce (values : list (option string)) : option string :=
  match values with
  | [] => None
  | Some s :: _ => Some s
  | None :: values' => coalesce values'
  end.

(** ** Dictionaries

    The record dictionaries map field names to [Optional[str]] values. *)

Abbreviation dict := (gmap string (option string)).

(** A method call [officer.find(...)] on a variable that may hold [None]. *)
Definition find_on (o : option Element) (path : list step)
  : result (option Element) :=
  match o with
  | None => Raise AttributeError
  | Some e => Ok (find e path)
  end.

(** [for x in xs: fields = body(x); records += [fields]] *)
Fixpoint for_records {A} (body : A → result dict) (xs : list A)
    (records : list dict) : result (list dict) :=
  match xs with
  | [] => Ok records
  | x :: xs' => fields ← body x; for_records body xs' (records ++ [fields])
  end.

(** ** Parser functions *)

(** The dictionary built by [parse_return] has a fixed set of keys and is
    a record; ['src_fname'] holds the [fname] argument, a [str]. *)
Record return_fields := ReturnFields {
  src_fname : string;
  return_type : option string;
  ein : option string;
  business_name : option string;
  business_address : option string;
  preparer_firm : option string;
  preparer_address : option string;
  tax_year : option string
}.

Definition parse_return (root : Element) (fname : string)
  : result return_fields :=
  rt1 ← safe_text (of_find (find root [Desc "ReturnTypeCd"]));
  rt2 ← safe_text (of_find (find root [Desc "ReturnType"]));
  e ← safe_text (of_find (find root [Desc "Filer"; Child "EIN"]));
  bn1 ← safe_text (of_find (find root [Desc "Filer"; Child "BusinessName"; Star]));
  bn2 ← safe_text (of_find (find root [Desc "Filer"; Child "Name"; Star]));
  ba ← safe_text (Plural (findall root [Desc "Filer"; Child "USAddress"; Star]));
  pf1 ← safe_text (of_find (find root [Desc "PreparerFirmName"; Star]));
  pf2 ← safe_text (of_find (find root [Desc "PreparerFirmBusinessName"; Star]));
  pa1 ← safe_text (Plural (findall root [Desc "PreparerUSAddress"; Star]));
  pa2 ← safe_text (Plural (findall root [Desc "PreparerFirmUSAddress"; Star]));
  ty1 ← safe_text (of_find (find root [Desc "TaxYr"]));
  ty2 ← safe_text (of_find (find root [Desc "TaxYear"]));
  mret {| src_fname := fname;
          return_type := coalesce [rt1; rt2];
          ein := e;
          business_name := coalesce [bn1; bn2];
          business_address := ba;
          preparer_firm := coalesce [pf1; pf2];
          preparer_address := coalesce [pa1; pa2];
          tax_year := coalesce [ty1; ty2] |}.

(** The four tag-name variants scanned by [parse_officers], in scan order. *)
Definition listed_officers (root : Element) : list Element :=
  findall root [Desc "OfficerDirTrstKeyEmplGrp"]
  ++ findall root [Desc "OfficerDirectorTrusteeEmplGrp"]
  ++ findall root [Desc "OfcrDirTrusteesOrKeyEmployee"]
  ++ findall root [Desc "Form990PartVIISectionAGrp"].

(** The body of the loop over the listed officers. *)
Definition officer_fields (officer : Element) : result dict :=
  n1 ← safe_text (of_find (find officer [Child "PersonNm"]));
  n2 ← safe_text (Plural (findall officer [Desc "BusinessName"; Star]));
  n3 ← safe_text (of_find (find officer [Child "PersonName"]));
  t1 ← safe_text (of_find (find officer [Child "TitleTxt"]));
  t2 ← safe_text (of_find (find officer [Child "Title"]));
  a ← safe_text (Plural (findall officer [Desc "USAddress"; Star]));
  mret (<["address" := a]>
         (<["title" := coalesce [t1; t2]]>
           (<["name" := coalesce [n1; n2; n3]]> (∅ : dict)))).

(** The officer named in the header: the body of [if not records:]. *)
Definition header_officer (root : Element) : option Element :=
  match find root [Desc "BusinessOfficerGrp"] with
  | None => find root [Desc "Officer"]
  | Some officer => Some officer
  end.

Definition header_officer_fields (root : Element) : result dict :=
  let officer := header_officer root in
  n1 ← (e ← find_on officer [Child "PersonNm"]; safe_text (of_find e));
  n2 ← (e ← find_on officer [Child "Name"]; safe_text (of_find e));
  t1 ← (e ← find_on officer [Child "PersonTitleTxt"]; safe_text (of_find e));
  t2 ← (e ← find_on officer [Child "Title"]; safe_text (of_find e));
  mret (<["address" := Some ""]>
         (<["title" := coalesce [t1; t2]]>
           (<["name" := coalesce [n1; n2]]> (∅ : dict)))).

(** [not records] for a list. *)
Definition is_empty {A} (l : list A) : bool :=
  match l with [] => true | _ => false end.

Definition parse_officers (root : Element) (fname : string)
  : result (list dict) :=
  let records := [] in
  let officers := listed_officers root in
  records ← for_records officer_fields officers records;
  if is_empty records then
    fields ← header_officer_fields root;
    mret (records ++ [fields])
  else mret records.

(** Which of the two sources of officer records a run used. *)
Inductive officer_source := Listed | HeaderFallback.

(** The branch taken at [if not records:], when the loop over the listed
    officers gets there. *)
Definition officers_branch (root : Element) : option officer_source :=
  match for_records officer_fields (listed_officers root) [] with
  | Ok records => Some (if is_empty records then HeaderFallback else Listed)
  | Raise _ => None
  end.

Definition grant_fields (grant : Element) : result dict :=
  n1 ← safe_text (of_find (find grant [Child "RecipientPersonNm"]));
  n2 ← safe_text (Plural (findall grant [Desc "RecipientBusinessName"; Star]));
  a ← safe_text (Plural (findall grant [Desc "RecipientUSAddress"; Star]));
  p ← safe_text (of_find (find grant [Desc "GrantOrContributionPurposeTxt"]));
  m ← safe_text (of_find (find grant [Child "Amt"]));
  mret (<["amount" := m]>
         (<["purpose" := p]>
           (<["recipient_address" := a]>
             (<["recipient_name" := coalesce [n1; n2]]> (∅ : dict))))).

Definition parse_grants (root : Element) (fname : string)
  : result (list dict) :=
  let records := [] in
  let grants := findall root [Desc "GrantOrContributionPdDurYrGrp"] in
  for_records grant_fields grants records.

(** ** The composer

    [return_tree] adds the keys ['officers'] and ['grants'] to the
    dictionary of [parse_return].  The nested records are dictionaries
    ([tree dict]) or, once they live in a store, references to dictionaries
    ([tree loc], see below). *)

Record tree (A : Type) := Tree {
  header : return_fields;
  officers : list A;
  grants : list A
}.
Arguments Tree {A} header officers grants.
Arguments header {A} t.
Arguments officers {A} t.
Arguments grants {A} t.

Definition return_tree (root : Element) (fname : string)
  : result (tree dict) :=
  tree ← parse_return root fname;
  os ← parse_officers root fname;
  gs ← parse_grants root fname;
  mret (Tree tree os gs).

(** ** Export: the flattening loop of [export_to_csv]

    The loop writes into the officer and grant dictionaries it is handed,
    so these live in a store and the trees refer to them by location; two
    references to one location are two names of one dictionary. *)

Abbreviation loc := nat.
Abbreviation store := (gmap loc dict).

(** [o['src_fname'] = fk] *)
Definition stamp (fk : string) (o : loc) (σ : store) : store :=
  alter (<["src_fname" := Some fk]>) o σ.

(** [for o in refs: o['src_fname'] = fk; rows += [o]] *)
Definition stamp_rows (fk : string) (refs : list loc)
    (st : store * list loc) : store * list loc :=
  foldl (λ st o, (stamp fk o st.1, st.2 ++ [o])) st refs.

(** One round of the outer loop; its state is the store and the lists
    [officers] and [grants]. *)
Definition flatten_step (st : store * (list loc * list loc)) (r : tree loc)
  : store * (list loc * list loc) :=
  let '(σ, (os, gs)) := st in
  let '(σ, os) := stamp_rows (src_fname (header r)) (officers r) (σ, os) in
  let '(σ, gs) := stamp_rows (src_fname (header r)) (grants r) (σ, gs) in
  (σ, (os, gs)).

(** The three lists the loop has built when it ends. *)
Record collections := Collections {
  c_returns : list (tree loc);
  c_officers : list loc;
  c_grants : list loc
}.

(** [export_to_csv] up to the end of its loop, with the store it leaves.
    The data frames built from the three lists and the files written from
    them are not part of the model. *)
Definition export_to_csv (σ : store) (data_tree : list (tree loc))
  : store * collections :=
  let returns := data_tree in
  let '(σ, (os, gs)) := foldl flatten_step (σ, ([], [])) returns in
  (σ, Collections returns os gs).

(** Laying out the trees built by [return_tree] in a store: every nested
    dictionary is an object of its own. *)
Fixpoint alloc (ds : list dict) (next : loc) (σ : store)
  : list loc * loc * store :=
  match ds with
  | [] => ([], next, σ)
  | d :: ds' =>
      let '(refs, next', σ') := alloc ds' (S next) (<[next := d]> σ) in
      (next :: refs, next', σ')
  end.

Fixpoint load (ts : list (tree dict)) (next : loc) (σ : store)
  : list (tree loc) * store :=
  match ts with
  | [] => ([], σ)
  | t :: ts' =>
      let '(os, next, σ) := alloc (officers t) next σ in
      let '(gs, next, σ) := alloc (grants t) next σ in
      let '(rs, σ) := load ts' next σ in
      (Tree (header t) os gs :: rs, σ)
  end.

(** ** Sample documents *)

(** [<Return><ReturnHeader><ReturnType>990PF</ReturnType></ReturnHeader></Return>] *)
Definition legacy_type_doc : Element :=
  Elem "Return" None
    [Elem "ReturnHeader" None [Elem "ReturnType" (Some "990PF") []]].

(** A header with the legacy tax-year element only. *)
Definition legacy_year_doc : Element :=
  Elem "Return" None
    [Elem "ReturnHeader" None [Elem "TaxYear" (Some "2019") []]].

(** A return without any officer structure. *)
Definition no_officer_doc : Element :=
  Elem "Return" None
    [Elem "ReturnHeader" None [Elem "ReturnTypeCd" (Some "990") []];
     Elem "ReturnData" None []].

(** One listed officer whose address has an empty line,
    [<USAddress><AddressLine1Txt/></USAddress>]. *)
Definition officer_empty_line_doc : Element :=
  Elem "Return" None
    [Elem "ReturnData" None
       [Elem "Form990PartVIISectionAGrp" None
          [Elem "PersonNm" (Some "Ann Lee") [];
           Elem "TitleTxt" (Some "Director") [];
           Elem "USAddress" None [Elem "AddressLine1Txt" None []]]]].

(** A filer whose address has an empty second line. *)
Definition filer_empty_line_doc : Element :=
  Elem "Return" None
    [Elem "ReturnHeader" None
       [Elem "ReturnTypeCd" (Some "990") [];
        Elem "Filer" None
          [Elem "EIN" (Some "123456789") [];
           Elem "USAddress" None
             [Elem "AddressLine1Txt" (Some "1 Main St") [];
              Elem "AddressLine2Txt" None []]]]].

(** A paid preparer whose firm address has an empty city element. *)
Definition preparer_empty_city_doc : Element :=
  Elem "Return" None
    [Elem "ReturnHeader" None
       [Elem "ReturnTypeCd" (Some "990EZ") [];
        Elem "TaxYr" (Some "2020") [];
        Elem "PreparerFirmGrp" None
          [Elem "PreparerUSAddress" None
             [Elem "AddressLine1Txt" (Some "9 Elm St") [];
              Elem "CityNm" None []]]]].

(** One grant whose recipient business name has an empty second line. *)
Definition grant_empty_line_doc : Element :=
  Elem "Return" None
    [Elem "ReturnData" None
       [Elem "GrantOrContributionPdDurYrGrp" None
          [Elem "RecipientBusinessName" None
             [Elem "BusinessNameLine1Txt" (Some "Food Bank") [];
              Elem "BusinessNameLine2Txt" None []];
           Elem "Amt" (Some "500") []]]].

(** A header officer and two grants. *)
Definition header_officer_doc : Element :=
  Elem "Return" None
    [Elem "ReturnHeader" None
       [Elem "BusinessOfficerGrp" None
          [Elem "PersonNm" (Some "Jane Doe") [];
           Elem "PersonTitleTxt" (Some "CFO") []]];
     Elem "ReturnData" None
       [Elem "GrantOrContributionPdDurYrGrp" None
          [Elem "RecipientPersonNm" (Some "A") []; Elem "Amt" (Some "10") []];
        Elem "GrantOrContributionPdDurYrGrp" None
          [Elem "RecipientPersonNm" (Some "B") []; Elem "Amt" (Some "20") []]]].

(** The sub-elements of a two-line address. *)
Definition address_lines : list Element :=
  [Elem "AddressLine1Txt" (Some "123 Main St") [];
   Elem "AddressLine2Txt" (Some "Suite 4") []].

(** The sub-elements of an address whose second line is an empty
    element. *)
Definition address_empty_second_line : list Element :=
  [Elem "AddressLine1Txt" (Some "1 Main St") [];
   Elem "AddressLine2Txt" None []].

(** ** Auxiliary notions for the statements *)

(** The join as the specification words it: the first content, and every
    further content preceded by exactly one space, in the order given. *)
Definition space_separated (contents : list string) : string :=
  match contents with
  | [] => ""
  | s :: contents' => s +:+ foldr (λ t acc, " " +:+ t +:+ acc) "" contents'
  end.

(** The lookups whose results are joined. *)
Definition joined_header_paths : list (list step) :=
  [[Desc "Filer"; Child "USAddress"; Star];
   [Desc "PreparerUSAddress"; Star];
   [Desc "PreparerFirmUSAddress"; Star]].

(** The trees that [return_tree] builds from [header_officer_doc]. *)
Definition sample_trees : list (tree dict) :=
  match return_tree header_officer_doc "202100019349300000_public.xml" with
  | Ok t => [t]
  | Raise _ => []
  end.

(** The batch of one composite record that [return_tree] builds from
    [header_officer_doc], laid out in an empty store. *)
Definition sample_batch : list (tree loc) * store := load sample_trees 0 ∅.

(** The parent's name recorded last in the dictionary at [o]: that of the
    last record of the sequence that refers to [o]. *)
Definition last_parent (rs : list (tree loc)) (o : loc) : option string :=
  (λ r, src_fname (header r))
    <$> last (filter (λ r, o ∈ officers r ++ grants r) rs).

(** What the loop leaves at a location that was stamped with [fk], or not
    at all. *)
Definition stamped (fk : option string) (d : option dict) : option dict :=
  match fk with
  | Some fk => <["src_fname" := Some fk]> <$> d
  | None => d
  end.

(** ** Further sample documents *)

(** A return whose preparer address is given in the legacy element only. *)
Definition legacy_preparer_doc : Element :=
  Elem "Return" None
    [Elem "ReturnHeader" None
       [Elem "ReturnTypeCd" (Some "990") [];
        Elem "PreparerFirmGrp" None
          [Elem "PreparerFirmUSAddress" None
             [Elem "AddressLine1Txt" (Some "5 Oak Ave") [];
              Elem "CityNm" (Some "Troy") []]]]].

(** A return whose primary return-type element is present but empty. *)
Definition empty_type_code_doc : Element :=
  Elem "Return" None
    [Elem "ReturnHeader" None
       [Elem "ReturnTypeCd" None [];
        Elem "ReturnType" (Some "990EZ") []]].

(** The value a single-element lookup hands to [coalesce]: the empty string
    when nothing was found, else the element's text. *)
Definition looked_up (o : option Element) : option string :=
  from_option text (Some "") o.

(** What [coalesce(safe_text(find(A)), safe_text(find(B)))] evaluates to, in
    terms of the two elements looked up. *)
Definition coalesced_lookup (o1 o2 : option Element) : option string :=
  match o1 with
  | None => Some ""
  | Some e =>
      match text e with
      | Some s => Some s
      | None => looked_up o2
      end
  end.

(** Two listed officers of different tag variants; the one found by the
    later variant comes first in the document and has a business name
    instead of a person name. *)
Definition two_variant_officers_doc : Element :=
  Elem "Return" None
    [Elem "ReturnData" None
       [Elem "Form990PartVIISectionAGrp" None
          [Elem "BusinessName" None
             [Elem "BusinessNameLine1Txt" (Some "Acme Trust Co") []];
           Elem "TitleTxt" (Some "Trustee") []];
        Elem "OfficerDirTrstKeyEmplGrp" None
          [Elem "PersonNm" (Some "Ann Lee") [];
           Elem "TitleTxt" (Some "Director") [];
           Elem "USAddress" None
             [Elem "AddressLine1Txt" (Some "1 Main St") [];
              Elem "CityNm" (Some "Troy") []]]]].

(** What [coalesce(safe_text(find(A)), safe_text(findall(B)), ...)]
    evaluates to when the join of [B] gave [joined]: a join is a string,
    so later candidates never count. *)
Definition name_or_joined (o : option Element) (joined : string)
  : option string :=
  match o with
  | None => Some ""
  | Some e =>
      match text e with
      | Some s => Some s
      | None => Some joined
      end
  end.

(** The joined lookups of [grant_fields]. *)
Definition joined_grant_paths : list (list step) :=
  [[Desc "RecipientBusinessName"; Star]; [Desc "RecipientUSAddress"; Star]].

(** A grant paid to an organisation: the recipient has a business name and
    no person name. *)
Definition business_grant : Element :=
  Elem "GrantOrContributionPdDurYrGrp" None
    [Elem "RecipientBusinessName" None
       [Elem "BusinessNameLine1Txt" (Some "Food Bank") []];
     Elem "RecipientUSAddress" None
       [Elem "AddressLine1Txt" (Some "2 Mill Rd") [];
        Elem "CityNm" (Some "Troy") []];
     Elem "GrantOrContributionPurposeTxt" (Some "General support") [];
     Elem "Amt" (Some "500") []].

Definition business_grant_doc : Element :=
  Elem "Return" None [Elem "ReturnData" None [business_grant]].

(** The joined lookups of [officer_fields]. *)
Definition joined_officer_paths : list (list step) :=
  [[Desc "BusinessName"; Star]; [Desc "USAddress"; Star]].

(** ** The main loop

    For one archive the script starts from [data_tree = []] and, member by
    member in the order of [namelist()], appends
    [return_tree(xml_root, fname)].  A member is given here by its name and
    the root of its parsed document. *)
Fixpoint data_tree (members : list (string * Element))
    (acc : list (tree dict)) : result (list (tree dict)) :=
  match members with
  | [] => Ok acc
  | (fname, xml_root) :: members' =>
      t ← return_tree xml_root fname;
      data_tree members' (acc ++ [t])
  end.

(** ** Archive names

    [s.split(sep)] for a separator of one character: the pieces between
    the occurrences of [sep], of which there is always at least one. *)
Fixpoint split (sep : Ascii.ascii) (s : string) : list string :=
  match s with
  | EmptyString => [EmptyString]
  | String c s' =>
      if Ascii.eqb c sep then EmptyString :: split sep s'
      else match split sep s' with
           | [] => [String c EmptyString]
           | w :: ws => String c w :: ws
           end
  end.

(** [year = name.split("_")[1]] and
    [part = name.split("_")[2].split(".")[0]]; an index out of range,
    where Python raises [IndexError], is [None]. *)
Definition year (name : string) : option string :=
  split "_"%char name !! 1.

Definition part (name : string) : option string :=
  piece ← split "_"%char name !! 2;
  split "."%char piece !! 0.

(** The number of occurrences of a character in a string. *)
Fixpoint occurrences (c : Ascii.ascii) (s : string) : nat :=
  match s with
  | EmptyString => 0
  | String c' s' => (if Ascii.eqb c' c then 1 else 0) + occurrences c s'
  end.

(** * Properties *)

(** ** The [result] monad *)

Lemma bind_Ok {A B} (m : result A) (f : A → result B) b :
  m ≫= f = Ok b ↔ ∃ a, m = Ok a ∧ f a = Ok b.
Proof.
  destruct m as [a|e]; simpl.
  - split; [eauto | by intros (? & [= <-] & ?)].
  - split; [done | by intros (? & ? & ?)].
Qed.

Lemma bind_Raise {A B} (m : result A) (f : A → result B) e :
  m ≫= f = Raise e ↔ m = Raise e ∨ ∃ a, m = Ok a ∧ f a = Raise e.
Proof.
  destruct m as [a|e']; simpl.
  - split; [eauto | by intros [? | (? & [= <-] & ?)]].
  - split; [intros [= ->]; by left | by intros [[= ->] | (? & ? & ?)]].
Qed.

Lemma returns_Ok {A} (a : A) : returns (Ok a).
Proof. by exists a. Qed.

Lemma returns_Raise {A} e : ¬ returns (@Raise A e).
Proof. by intros [? ?]. Qed.

Lemma returns_bind {A B} (m : result A) (f : A → result B) :
  returns (m ≫= f) ↔ ∃ a, m = Ok a ∧ returns (f a).
Proof.
  unfold returns. split.
  - intros [b (a & ? & ?)%bind_Ok]. eauto.
  - intros (a & ? & b & ?). exists b. apply bind_Ok. eauto.
Qed.

(** ** [coalesce] *)

Lemma coalesce_None values :
  coalesce values = None ↔ Forall (λ v, v = None) values.
Proof.
  induction values as [|[s|] values IH]; simpl.
  - split; [constructor | done].
  - split; [done | by inversion 1].
  - rewrite IH. split; [by constructor | by inversion 1].
Qed.

Lemma coalesce_Some values s :
  coalesce values = Some s ↔
  ∃ skipped rest,
    values = skipped ++ Some s :: rest ∧ Forall (λ v, v = None) skipped.
Proof.
  induction values as [|[s'|] values IH]; simpl.
  - split; [done | intros ([|??] & ? & ? & _); done].
  - split.
    + intros [= ->]. by exists [], values.
    + intros ([|? skipped] & rest & Heq & Hall); simplify_eq/=; [done|].
      by inversion Hall.
  - rewrite IH. split.
    + intros (skipped & rest & -> & ?). exists (None :: skipped), rest.
      split; [done | by constructor].
    + intros ([|? skipped] & rest & Heq & Hall); simplify_eq/=.
      exists skipped, rest. split; [done | by inversion Hall].
Qed.

(** ** [safe_text] *)

Lemma strs_Ok items ss : strs items = Ok ss ↔ items = Some <$> ss.
Proof.
  revert ss. induction items as [|[s|] items IH]; intros ss; simpl.
  - split; [by intros [= <-] | by destruct ss].
  - rewrite bind_Ok. split.
    + intros (ss' & ->%IH & [= <-]). done.
    + destruct ss as [|s' ss']; intros [= -> ->].
      exists ss'. by rewrite IH.
  - split; [done | by destruct ss].
Qed.

Lemma strs_Raise items e :
  strs items = Raise e ↔ e = TypeError ∧ None ∈ items.
Proof.
  induction items as [|[s|] items IH]; simpl.
  - split; [done | by intros [_ ?%elem_of_nil]].
  - rewrite bind_Raise, IH. split.
    + intros [[-> ?] | (? & ? & ?)]; [|done]. split; [done | by right].
    + intros [-> [?|?]%elem_of_cons]; [done | by left].
  - split.
    + intros [= <-]. split; [done | by left].
    + by intros [-> _].
Qed.

Lemma safe_text_Plural_Ok es v :
  safe_text (Plural es) = Ok v ↔
  ∃ ss, text <$> es = Some <$> ss ∧ v = Some (String.concat " " ss).
Proof.
  simpl. unfold join. rewrite bind_Ok. split.
  - intros (s & (ss & ?%strs_Ok & [= <-])%bind_Ok & [= <-]). eauto.
  - intros (ss & ? & ->). exists (String.concat " " ss). split; [|done].
    apply bind_Ok. exists ss. by rewrite strs_Ok.
Qed.

Lemma safe_text_Plural_Raise es e :
  safe_text (Plural es) = Raise e ↔
  e = TypeError ∧ ∃ x, x ∈ es ∧ text x = None.
Proof.
  simpl. unfold join. rewrite bind_Raise. split.
  - intros [[H | (? & ? & ?)]%bind_Raise | (? & ? & ?)]; try done.
    apply strs_Raise in H as [-> (x & ? & ?)%list_elem_of_fmap]. eauto.
  - intros [-> (x & ? & Hx)]. left. apply bind_Raise. left.
    apply strs_Raise. split; [done|]. apply list_elem_of_fmap. eauto.
Qed.

Lemma safe_text_Plural_returns es :
  returns (safe_text (Plural es)) ↔ Forall (λ e, is_Some (text e)) es.
Proof.
  rewrite Forall_forall. split.
  - intros [v (ss & Htexts & _)%safe_text_Plural_Ok] e He.
    assert (text e ∈ Some <$> ss) as (s & -> & _)%list_elem_of_fmap; [|done].
    rewrite <-Htexts. apply list_elem_of_fmap. eauto.
  - intros Hall. destruct (safe_text (Plural es)) as [v|e] eqn:Hres.
    + apply returns_Ok.
    + apply safe_text_Plural_Raise in Hres as [_ (x & Hx & Hnone)].
      apply Hall in Hx as [? ?]. congruence.
Qed.

Lemma safe_text_of_find_returns o : returns (safe_text (of_find o)).
Proof. destruct o; apply returns_Ok. Qed.

Lemma safe_text_of_find o :
  safe_text (of_find o) = Ok (from_option text (Some "") o).
Proof. by destruct o. Qed.

(** C4. The Text Resolver on the result of a single-element lookup.  When
    the lookup found nothing, [safe_text] returns the empty string and not
    the absence value [None]: it is a string that [coalesce], which skips
    [None] only, takes for a present value, whatever candidates come later.
    The lookup of [TaxYr] in [legacy_year_doc] is such a lookup.  The other
    half of the claim holds: when the lookup located an element, the output
    is that element's [text] as it stands. *)
Theorem safe_text_nothing_not_absent :
  safe_text Nothing = Ok (Some "")
  ∧ safe_text Nothing ≠ Ok None
  ∧ (∀ later, (v ← safe_text Nothing; mret (coalesce (v :: later)))
              = Ok (Some ""))
  ∧ (find legacy_year_doc [Desc "TaxYr"] = None
     ∧ safe_text (of_find (find legacy_year_doc [Desc "TaxYr"]))
       = Ok (Some ""))
  ∧ (∀ e, safe_text (Single e) = Ok (text e))
  ∧ (∀ root path,
       safe_text (of_find (find root path)) =
       match findall root path with
       | [] => Ok (Some "")
       | e :: _ => Ok (text e)
       end).
Proof.
  split_and!; [done..|].
  intros root path. unfold find. by destruct (findall root path).
Qed.

Lemma string_app_nil_r (s : string) : s +:+ "" = s.
Proof. induction s as [|a s IH]; [done | exact (f_equal (String a) IH)]. Qed.

Lemma concat_space_separated ss :
  String.concat " " ss = space_separated ss.
Proof.
  destruct ss as [|s ss]; [done|]. revert s.
  induction ss as [|t ss IH]; intros s.
  - exact (eq_sym (string_app_nil_r s)).
  - change (String.concat " " (s :: t :: ss))
      with (s +:+ " " +:+ String.concat " " (t :: ss)).
    rewrite IH. done.
Qed.

(** C9. [safe_text] on [address_empty_second_line], a list of two located
    elements of which the second carries no text: the join raises
    [TypeError] and no joined value is produced, so the claim fails for
    this list.  It holds for the lists whose elements all carry text: the
    output is their contents in order, each further one preceded by a
    single space, none dropped; joining [address_lines] yields
    123 Main St Suite 4. *)
Theorem safe_text_join_raises_without_text :
  length address_empty_second_line = 2
  ∧ text <$> address_empty_second_line = [Some "1 Main St"; None]
  ∧ safe_text (Plural address_empty_second_line) = Raise TypeError
  ∧ (∀ es contents,
       text <$> es = Some <$> contents →
       safe_text (Plural es) = Ok (Some (space_separated contents)))
  ∧ safe_text (Plural address_lines) = Ok (Some "123 Main St Suite 4").
Proof.
  split_and!; [done..| |done].
  intros es contents Htexts. apply safe_text_Plural_Ok.
  exists contents. by rewrite concat_space_separated.
Qed.

(** C10. On a list of located elements [safe_text] produces a value exactly
    when every element carries text; as soon as one matched element has no
    text the join raises [TypeError].  The branch is reachable from the
    extractors: the filer address of [filer_empty_line_doc] has an empty
    second line, and [parse_return] raises on it. *)
Theorem safe_text_plural_partial :
  (∀ es, returns (safe_text (Plural es)) ↔ Forall (λ e, is_Some (text e)) es)
  ∧ (∀ es, safe_text (Plural es) = Raise TypeError ↔
           Exists (λ e, text e = None) es)
  ∧ (findall filer_empty_line_doc [Desc "Filer"; Child "USAddress"; Star] ≠ []
     ∧ parse_return filer_empty_line_doc "201900019349300000_public.xml"
       = Raise TypeError).
Proof.
  split_and!.
  - apply safe_text_Plural_returns.
  - intros es. rewrite Exists_exists, safe_text_Plural_Raise.
    split; [by intros [_ ?] | done].
  - done.
  - vm_compute. done.
Qed.

(** ** [parse_return] *)

Lemma parse_return_joins root fname :
  parse_return root fname =
  ba ← safe_text (Plural (findall root [Desc "Filer"; Child "USAddress"; Star]));
  pa1 ← safe_text (Plural (findall root [Desc "PreparerUSAddress"; Star]));
  pa2 ← safe_text (Plural (findall root [Desc "PreparerFirmUSAddress"; Star]));
  mret {|
    src_fname := fname;
    return_type :=
      coalesce [from_option text (Some "") (find root [Desc "ReturnTypeCd"]);
                from_option text (Some "") (find root [Desc "ReturnType"])];
    ein := from_option text (Some "") (find root [Desc "Filer"; Child "EIN"]);
    business_name :=
      coalesce
        [from_option text (Some "")
           (find root [Desc "Filer"; Child "BusinessName"; Star]);
         from_option text (Some "")
           (find root [Desc "Filer"; Child "Name"; Star])];
    business_address := ba;
    preparer_firm :=
      coalesce
        [from_option text (Some "") (find root [Desc "PreparerFirmName"; Star]);
         from_option text (Some "")
           (find root [Desc "PreparerFirmBusinessName"; Star])];
    preparer_address := coalesce [pa1; pa2];
    tax_year :=
      coalesce [from_option text (Some "") (find root [Desc "TaxYr"]);
                from_option text (Some "") (find root [Desc "TaxYear"])]
  |}.
Proof. unfold parse_return. by rewrite !safe_text_of_find. Qed.

(** When [parse_return] returns, the record carries the member name. *)
Lemma parse_return_src_fname root fname r :
  parse_return root fname = Ok r → src_fname r = fname.
Proof.
  rewrite parse_return_joins.
  intros (ba & _ & (pa1 & _ & (pa2 & _ & [= <-])%bind_Ok)%bind_Ok)%bind_Ok.
  done.
Qed.

(** [parse_return] returns exactly on the documents whose joined address
    sub-elements all carry text; on the others it raises [TypeError]. *)
Lemma parse_return_returns root fname :
  returns (parse_return root fname) ↔
  ∀ path e, path ∈ joined_header_paths → e ∈ findall root path →
            is_Some (text e).
Proof.
  pose proof safe_text_Plural_returns as Htotal.
  rewrite parse_return_joins. unfold joined_header_paths.
  rewrite returns_bind. split.
  - intros (ba & Hba & (pa1 & Hpa1 & (pa2 & Hpa2 & _)%returns_bind)%returns_bind).
    intros path e Hpath He.
    assert (returns (safe_text (Plural (findall root path)))) as Hret.
    { rewrite !elem_of_cons, elem_of_nil in Hpath.
      destruct Hpath as [->|[->|[->|[]]]]; eexists; eassumption. }
    apply Htotal in Hret. rewrite Forall_forall in Hret. by apply Hret.
  - intros Hall.
    assert (∀ path, path ∈ joined_header_paths →
                    returns (safe_text (Plural (findall root path)))) as Hret.
    { intros path Hpath. apply Htotal, Forall_forall. eauto. }
    unfold joined_header_paths in Hret.
    destruct (Hret [Desc "Filer"; Child "USAddress"; Star]) as [ba Hba];
      [apply list_elem_of_here|].
    destruct (Hret [Desc "PreparerUSAddress"; Star]) as [pa1 Hpa1];
      [apply list_elem_of_further, list_elem_of_here|].
    destruct (Hret [Desc "PreparerFirmUSAddress"; Star]) as [pa2 Hpa2];
      [do 2 apply list_elem_of_further; apply list_elem_of_here|].
    exists ba. split; [done|]. rewrite Hpa1, Hpa2. apply returns_Ok.
Qed.

(** When the element tried first is missing, [safe_text] hands [coalesce]
    the empty string, and [coalesce] looks no further. *)
Lemma return_type_without_ReturnTypeCd root fname r :
  find root [Desc "ReturnTypeCd"] = None →
  parse_return root fname = Ok r →
  return_type r = Some "".
Proof.
  rewrite parse_return_joins. intros ->.
  intros (ba & _ & (pa1 & _ & (pa2 & _ & [= <-])%bind_Ok)%bind_Ok)%bind_Ok.
  done.
Qed.

Lemma tax_year_without_TaxYr root fname r :
  find root [Desc "TaxYr"] = None →
  parse_return root fname = Ok r →
  tax_year r = Some "".
Proof.
  rewrite parse_return_joins. intros ->.
  intros (ba & _ & (pa1 & _ & (pa2 & _ & [= <-])%bind_Ok)%bind_Ok)%bind_Ok.
  done.
Qed.

(** C1. [parse_return] on [legacy_year_doc], which has no [TaxYr] element
    and a [TaxYear] element with text 2019: the lookup of the first
    candidate finds nothing, [safe_text] turns that into the empty string,
    and [coalesce], which skips [None] only, returns it; the second
    candidate is never used. *)
Theorem tax_year_no_fall_through :
  find legacy_year_doc [Desc "TaxYr"] = None
  ∧ text <$> find legacy_year_doc [Desc "TaxYear"] = Some (Some "2019")
  ∧ tax_year <$> parse_return legacy_year_doc "201900019349300000_public.xml"
    = Ok (Some "").
Proof. vm_compute. done. Qed.

(** C2. [parse_return] on [legacy_type_doc], which has a [ReturnType]
    element with text 990PF and no [ReturnTypeCd] element: [return_type] is
    the empty string, not 990PF. *)
Theorem return_type_legacy_only :
  find legacy_type_doc [Desc "ReturnTypeCd"] = None
  ∧ text <$> find legacy_type_doc [Desc "ReturnType"] = Some (Some "990PF")
  ∧ return_type <$> parse_return legacy_type_doc "201500019349100000_public.xml"
    = Ok (Some "").
Proof. vm_compute. done. Qed.

(** C7. [parse_return] on [preparer_empty_city_doc], a well-formed document
    whose preparer address has an element without text: the join raises and
    no Return Record is produced. *)
Theorem parse_return_no_record :
  parse_return preparer_empty_city_doc "202000019349200000_public.xml"
  = Raise TypeError.
Proof. vm_compute. done. Qed.

(** ** The record loops *)

Section for_records.
Context {A : Type} (body : A → result dict).

(** The loop returns when the body returns on every element, and then it
    has appended one record per element, in order. *)
Lemma for_records_Ok xs records rs :
  for_records body xs records = Ok rs ↔
  ∃ new, rs = records ++ new ∧ Forall2 (λ x r, body x = Ok r) xs new.
Proof.
  revert records. induction xs as [|x xs IH]; intros records; simpl.
  - split.
    + intros [= <-]. exists []. by rewrite app_nil_r.
    + intros (new & -> & ->%Forall2_nil_inv_l). by rewrite app_nil_r.
  - rewrite bind_Ok. split.
    + intros (r & Hr & (new & -> & Hnew)%IH). exists (r :: new).
      rewrite <-app_assoc. split; [done | by constructor].
    + intros (new & -> & (r & new' & Hr & Hnew & ->)%Forall2_cons_inv_l).
      exists r. split; [done|]. apply IH. exists new'.
      by rewrite <-app_assoc.
Qed.

Lemma for_records_Raise xs records e :
  for_records body xs records = Raise e → ∃ x, x ∈ xs ∧ body x = Raise e.
Proof.
  revert records. induction xs as [|x xs IH]; intros records; simpl; [done|].
  intros [Hx | (r & _ & (y & ? & ?)%IH)]%bind_Raise.
  - exists x. split; [apply list_elem_of_here | done].
  - exists y. split; [by apply list_elem_of_further | done].
Qed.

Lemma for_records_length xs records rs :
  for_records body xs records = Ok rs →
  length rs = length records + length xs.
Proof.
  intros (new & -> & Hnew)%for_records_Ok.
  rewrite length_app. by rewrite (Forall2_length _ _ _ Hnew).
Qed.
End for_records.

(** ** [parse_officers] *)

(** The header fallback is taken exactly when the scan of the four variants
    found nothing. *)
Lemma officers_branch_fallback root :
  officers_branch root = Some HeaderFallback ↔ listed_officers root = [].
Proof.
  unfold officers_branch.
  destruct (for_records _ _ _) as [records|e] eqn:Hloop; [|split].
  - apply for_records_length in Hloop. simpl in Hloop.
    destruct records, (listed_officers root); simpl in *; split; done.
  - done.
  - intros Hnil. rewrite Hnil in Hloop. done.
Qed.

(** With listed officers the records are those of the loop, the header is
    not consulted. *)
Lemma parse_officers_listed root fname :
  listed_officers root ≠ [] →
  parse_officers root fname
  = for_records officer_fields (listed_officers root) [].
Proof.
  intros Hlisted. unfold parse_officers.
  destruct (for_records _ _ _) as [records|e] eqn:Hloop; [|done].
  apply for_records_length in Hloop.
  destruct records; simpl in *; [|done].
  by destruct (listed_officers root).
Qed.

Lemma parse_officers_fallback root fname :
  listed_officers root = [] →
  parse_officers root fname
  = fields ← header_officer_fields root; mret [fields].
Proof. intros Hnil. unfold parse_officers. by rewrite Hnil. Qed.

Lemma header_officer_fields_present root officer :
  header_officer root = Some officer →
  header_officer_fields root =
  Ok (<["address" := Some ""]>
       (<["title" :=
            coalesce
              [from_option text (Some "") (find officer [Child "PersonTitleTxt"]);
               from_option text (Some "") (find officer [Child "Title"])]]>
         (<["name" :=
              coalesce
                [from_option text (Some "") (find officer [Child "PersonNm"]);
                 from_option text (Some "") (find officer [Child "Name"])]]>
           (∅ : dict)))).
Proof.
  intros Hofficer. unfold header_officer_fields. rewrite Hofficer. simpl.
  by rewrite !safe_text_of_find.
Qed.

Lemma header_officer_fields_missing root :
  header_officer root = None →
  header_officer_fields root = Raise AttributeError.
Proof. intros Hnone. unfold header_officer_fields. by rewrite Hnone. Qed.

(** No listed officer and no header officer: the method call on [None]
    ends the run. *)
Lemma parse_officers_no_officer root fname :
  listed_officers root = [] →
  header_officer root = None →
  parse_officers root fname = Raise AttributeError.
Proof.
  intros Hlisted Hheader.
  by rewrite parse_officers_fallback, header_officer_fields_missing.
Qed.

(** C3. [parse_officers] on [no_officer_doc], where the scan of the four
    variants finds nothing and neither [BusinessOfficerGrp] nor [Officer]
    exists: the call [officer.find] on [None] raises [AttributeError], which
    nothing catches; no empty list is returned. *)
Theorem parse_officers_missing_header_officer :
  listed_officers no_officer_doc = []
  ∧ find no_officer_doc [Desc "BusinessOfficerGrp"] = None
  ∧ find no_officer_doc [Desc "Officer"] = None
  ∧ parse_officers no_officer_doc "201800019349300000_public.xml"
    = Raise AttributeError.
Proof. vm_compute. done. Qed.

(** C5. [parse_officers] on [officer_empty_line_doc], which lists one
    officer whose address has an element without text: the loop raises
    [TypeError] at that officer, so no record is produced for the one
    occurrence (and the test for the fallback is not reached). *)
Theorem parse_officers_listed_no_record :
  length (listed_officers officer_empty_line_doc) = 1
  ∧ officers_branch officer_empty_line_doc = None
  ∧ parse_officers officer_empty_line_doc "201700019349300000_public.xml"
    = Raise TypeError.
Proof. vm_compute. done. Qed.

(** ** [parse_grants] *)

Lemma parse_grants_Ok root fname rs :
  parse_grants root fname = Ok rs ↔
  Forall2 (λ grant r, grant_fields grant = Ok r)
    (findall root [Desc "GrantOrContributionPdDurYrGrp"]) rs.
Proof.
  unfold parse_grants. rewrite for_records_Ok. simpl. split.
  - by intros (new & -> & ?).
  - intros ?. by exists rs.
Qed.

Lemma parse_grants_none root fname :
  findall root [Desc "GrantOrContributionPdDurYrGrp"] = [] →
  parse_grants root fname = Ok [].
Proof. intros Hnil. apply parse_grants_Ok. rewrite Hnil. constructor. Qed.

(** C8. [parse_grants] on [grant_empty_line_doc], which has one grant
    structure whose recipient business name has an element without text:
    the join raises [TypeError] and no Grant Record is produced for the
    structure found. *)
Theorem parse_grants_no_record :
  length (findall grant_empty_line_doc [Desc "GrantOrContributionPdDurYrGrp"])
  = 1
  ∧ parse_grants grant_empty_line_doc "201600019349300000_public.xml"
    = Raise TypeError.
Proof. vm_compute. done. Qed.

(** ** [export_to_csv] *)

Lemma stamp_rows_eq fk refs σ rows :
  stamp_rows fk refs (σ, rows)
  = (foldl (λ σ o, stamp fk o σ) σ refs, rows ++ refs).
Proof.
  unfold stamp_rows. revert σ rows.
  induction refs as [|o refs IH]; intros σ rows; simpl.
  - by rewrite app_nil_r.
  - rewrite IH. by rewrite <-app_assoc.
Qed.

Lemma stamp_all_lookup fk refs (σ : store) o :
  foldl (λ σ o, stamp fk o σ) σ refs !! o
  = if decide (o ∈ refs) then <["src_fname" := Some fk]> <$> σ !! o
    else σ !! o.
Proof.
  revert σ. induction refs as [|x refs IH]; intros σ.
  - done.
  - cbn [foldl]. rewrite IH. unfold stamp. rewrite lookup_alter.
    destruct (decide (x = o)) as [->|Hne].
    + rewrite (decide_True (P := o ∈ o :: refs)) by apply list_elem_of_here.
      case_decide; [|done].
      destruct (σ !! o) as [d|]; simpl; [|done]. by rewrite insert_insert_eq.
    + destruct (decide (o ∈ refs)) as [Hin|Hnin].
      * by rewrite decide_True by by apply list_elem_of_further.
      * rewrite decide_False; [done|].
        rewrite elem_of_cons. intros [->|?]; done.
Qed.

Lemma flatten_step_eq σ os gs r :
  flatten_step (σ, (os, gs)) r
  = (foldl (λ σ o, stamp (src_fname (header r)) o σ) σ
       (officers r ++ grants r),
     (os ++ officers r, gs ++ grants r)).
Proof.
  unfold flatten_step. rewrite !stamp_rows_eq. by rewrite foldl_app.
Qed.

(** The loop, one record after the other. *)
Lemma flatten_loop σ rs :
  foldl flatten_step (σ, ([], [])) rs
  = (foldl (λ σ r, foldl (λ σ o, stamp (src_fname (header r)) o σ) σ
                     (officers r ++ grants r)) σ rs,
     (rs ≫= officers, rs ≫= grants)).
Proof.
  induction rs as [|r rs IH] using rev_ind; [done|].
  rewrite !foldl_snoc, IH, flatten_step_eq.
  by rewrite !bind_app, !bind_singleton.
Qed.

Lemma export_to_csv_eq σ rs :
  export_to_csv σ rs
  = (foldl (λ σ r, foldl (λ σ o, stamp (src_fname (header r)) o σ) σ
                     (officers r ++ grants r)) σ rs,
     Collections rs (rs ≫= officers) (rs ≫= grants)).
Proof. unfold export_to_csv. by rewrite flatten_loop. Qed.

(** The store the loop leaves. *)
Lemma export_to_csv_store σ rs o :
  (export_to_csv σ rs).1 !! o = stamped (last_parent rs o) (σ !! o).
Proof.
  rewrite export_to_csv_eq. unfold last_parent. simpl.
  induction rs as [|r rs IH] using rev_ind; [done|].
  rewrite foldl_snoc, stamp_all_lookup, IH, filter_app,
    (list.filter_singleton _ r []).
  destruct (decide (o ∈ officers r ++ grants r)) as [Hin|Hnin].
  - rewrite last_snoc. simpl.
    destruct (last _) as [r'|]; simpl; [|done].
    destruct (σ !! o) as [d|]; simpl; [|done]. by rewrite insert_insert_eq.
  - by rewrite app_nil_r.
Qed.

Lemma stamped_stamped fk d : stamped fk (stamped fk d) = stamped fk d.
Proof.
  destruct fk as [fk|], d as [d|]; simpl; try done.
  by rewrite insert_insert_eq.
Qed.

(** Running the loop again changes nothing any more. *)
Lemma export_to_csv_again σ rs :
  export_to_csv (export_to_csv σ rs).1 rs = export_to_csv σ rs.
Proof.
  assert ((export_to_csv (export_to_csv σ rs).1 rs).1 = (export_to_csv σ rs).1)
    as Hstore.
  { apply map_eq. intros o. by rewrite !export_to_csv_store, stamped_stamped. }
  apply injective_projections; [exact Hstore|].
  by rewrite !export_to_csv_eq.
Qed.

(** A nested dictionary ends up with the name of its parent, whenever the
    records that refer to it agree on that name; this is so when every
    nested dictionary has one parent, as in the trees of [return_tree]. *)
Lemma export_to_csv_foreign_key σ rs r o d :
  r ∈ rs →
  o ∈ officers r ++ grants r →
  (∀ r', r' ∈ rs → o ∈ officers r' ++ grants r' →
         src_fname (header r') = src_fname (header r)) →
  σ !! o = Some d →
  (export_to_csv σ rs).1 !! o
  = Some (<["src_fname" := Some (src_fname (header r))]> d).
Proof.
  intros Hr Ho Hagree Hd. rewrite export_to_csv_store, Hd. unfold last_parent.
  destruct (last (filter _ rs)) as [r'|] eqn:Hlast; simpl.
  - apply last_Some_elem_of, list_elem_of_filter in Hlast as [Ho' Hr'].
    by rewrite (Hagree r' Hr' Ho').
  - apply last_None in Hlast.
    by destruct (filter_nil_not_elem_of _ _ r Hlast Ho).
Qed.

(** C6, as the code has it.  The three collections list the composite
    records, their officer dictionaries and their grant dictionaries in the
    order of the records and, within a record, in the order of its nested
    lists; nothing is dropped, moved or merged.  Flattening again, in the
    store the first run left, yields the same collections and the same
    store.  The first run does write to its input: in the store it leaves,
    every nested dictionary carries under ['src_fname'] the name of the last
    record that refers to it, and all other dictionaries are as they
    were. *)
Theorem export_to_csv_flattening (σ : store) (rs : list (tree loc)) :
  let σ' := (export_to_csv σ rs).1 in
  let c := (export_to_csv σ rs).2 in
  c_returns c = rs
  ∧ c_officers c = rs ≫= officers
  ∧ c_grants c = rs ≫= grants
  ∧ export_to_csv σ' rs = (σ', c)
  ∧ ∀ o, σ' !! o = stamped (last_parent rs o) (σ !! o).
Proof.
  simpl. split_and!.
  - by rewrite export_to_csv_eq.
  - by rewrite export_to_csv_eq.
  - by rewrite export_to_csv_eq.
  - rewrite export_to_csv_again. by destruct (export_to_csv σ rs).
  - apply export_to_csv_store.
Qed.

(** C6 as stated fails: flattening the batch that [return_tree] builds from
    [header_officer_doc] changes the officer dictionary of the input, which
    had no ['src_fname'] key and has one afterwards. *)
Lemma export_to_csv_writes_input :
  (sample_batch.2 !! 0) ≫= (λ d, d !! "src_fname") = None
  ∧ ((export_to_csv sample_batch.2 sample_batch.1).1 !! 0)
      ≫= (λ d, d !! "src_fname")
    = Some (Some "202100019349300000_public.xml")
  ∧ (export_to_csv sample_batch.2 sample_batch.1).1 ≠ sample_batch.2.
Proof.
  assert ((sample_batch.2 !! 0) ≫= (λ d, d !! "src_fname") = None) as Hbefore
    by (vm_compute; done).
  assert (((export_to_csv sample_batch.2 sample_batch.1).1 !! 0)
            ≫= (λ d, d !! "src_fname")
          = Some (Some "202100019349300000_public.xml")) as Hafter
    by (vm_compute; done).
  split_and!; [done..|].
  intros Heq. rewrite Heq, Hbefore in Hafter. done.
Qed.

(** * Further properties of the script *)

(** ** [coalesce] and [safe_text] *)

(** X1. [coalesce] returns the first of its values that is not [None],
    having skipped only [None]s, and returns [None] exactly when every
    value is [None] (in particular for no values at all). *)
Theorem coalesce_first_present values :
  match coalesce values with
  | Some s =>
      ∃ skipped rest,
        values = skipped ++ Some s :: rest ∧ Forall (λ v, v = None) skipped
  | None => Forall (λ v, v = None) values
  end.
Proof.
  destruct (coalesce values) as [s|] eqn:Hc.
  - by apply coalesce_Some.
  - by apply coalesce_None.
Qed.

(** X2. Candidates listed after a present one are never looked at:
    coalescing two candidate lists one after the other is coalescing the
    first and, only if that gives [None], the second. *)
Theorem coalesce_app values1 values2 :
  coalesce (values1 ++ values2)
  = match coalesce values1 with
    | Some s => Some s
    | None => coalesce values2
    end.
Proof.
  induction values1 as [|[s|] values1 IH]; simpl; [done..|]. exact IH.
Qed.

(** X3. On a list, [safe_text] never returns [None]: when it returns, the
    value is a string, also for the empty list, where it is the empty
    string.  A [coalesce] whose first candidate is such a join therefore
    never reaches its later candidates. *)
Theorem safe_text_plural_never_None es v rest :
  safe_text (Plural es) = Ok v →
  is_Some v
  ∧ coalesce (v :: rest) = v
  ∧ (es = [] → v = Some "").
Proof.
  intros (ss & Htexts & ->)%safe_text_Plural_Ok. split_and!; [done..|].
  intros ->. by destruct ss.
Qed.

Lemma safe_text_plural_never_None_witness :
  safe_text (Plural []) = Ok (Some "")
  ∧ is_Some (Some "")
  ∧ coalesce [Some ""; Some "5 Oak Ave Troy"] = Some "".
Proof.
  split; [reflexivity|].
  destruct (safe_text_plural_never_None [] (Some "") [Some "5 Oak Ave Troy"])
    as (H1 & H2 & _); [reflexivity|].
  split; [exact H1 | exact H2].
Defined.

(** ** [parse_return] *)

Lemma parse_return_Raise root fname e :
  parse_return root fname = Raise e → e = TypeError.
Proof.
  rewrite parse_return_joins.
  intros [[-> _]%safe_text_Plural_Raise
         | (ba & _ & [[-> _]%safe_text_Plural_Raise
         | (pa1 & _ & [[-> _]%safe_text_Plural_Raise
         | (pa2 & _ & ?)]%bind_Raise)]%bind_Raise)]%bind_Raise; done.
Qed.

(** X4. [parse_return] returns a record exactly when every sub-element
    matched by its three joined address lookups carries text, and the only
    exception it raises is [TypeError]. *)
Theorem parse_return_outcome root fname :
  (returns (parse_return root fname) ↔
   ∀ path e, path ∈ joined_header_paths → e ∈ findall root path →
             is_Some (text e))
  ∧ (∀ e, parse_return root fname = Raise e → e = TypeError).
Proof.
  split; [apply parse_return_returns | apply parse_return_Raise].
Qed.

Lemma coalesce_looked_up o1 o2 :
  coalesce [looked_up o1; looked_up o2] = coalesced_lookup o1 o2.
Proof.
  destruct o1 as [[t [s|] cs]|]; simpl; [done| |done].
  by destruct (looked_up o2).
Qed.

(** X5. The header fields that coalesce two single-element lookups: the
    legacy element is consulted only when the primary element is present
    and has no text; when the primary element is missing the field is the
    empty string, whatever the legacy element holds.  [ein] is the text of
    the filer's EIN element, or the empty string without one. *)
Theorem parse_return_coalesced_fields root fname r :
  parse_return root fname = Ok r →
  return_type r
  = coalesced_lookup (find root [Desc "ReturnTypeCd"])
      (find root [Desc "ReturnType"])
  ∧ business_name r
    = coalesced_lookup (find root [Desc "Filer"; Child "BusinessName"; Star])
        (find root [Desc "Filer"; Child "Name"; Star])
  ∧ preparer_firm r
    = coalesced_lookup (find root [Desc "PreparerFirmName"; Star])
        (find root [Desc "PreparerFirmBusinessName"; Star])
  ∧ tax_year r
    = coalesced_lookup (find root [Desc "TaxYr"]) (find root [Desc "TaxYear"])
  ∧ ein r = looked_up (find root [Desc "Filer"; Child "EIN"]).
Proof.
  rewrite parse_return_joins.
  intros (ba & _ & (pa1 & _ & (pa2 & _ & [= <-])%bind_Ok)%bind_Ok)%bind_Ok.
  simpl. split_and!; try apply coalesce_looked_up. done.
Qed.

Lemma parse_return_coalesced_fields_witness :
  ∃ r,
    parse_return empty_type_code_doc "201400019349300000_public.xml" = Ok r
    ∧ return_type r = Some "990EZ"
    ∧ tax_year r = Some "".
Proof.
  destruct (parse_return empty_type_code_doc "201400019349300000_public.xml")
    as [r|e] eqn:Hparse; [|by vm_compute in Hparse].
  exists r. split; [done|].
  destruct (parse_return_coalesced_fields _ _ _ Hparse)
    as (Htype & _ & _ & Hyear & _).
  split; [exact Htype | exact Hyear].
Defined.

(** X6. The two address fields are the texts of the sub-elements found by
    the primary lookups, joined by single spaces.  For [preparer_address]
    the legacy lookup [PreparerFirmUSAddress] is never the one selected: a
    return that has only the legacy address gets the empty string. *)
Theorem parse_return_addresses root fname r :
  parse_return root fname = Ok r →
  ∃ filer preparer,
    text <$> findall root [Desc "Filer"; Child "USAddress"; Star]
    = Some <$> filer
    ∧ text <$> findall root [Desc "PreparerUSAddress"; Star] = Some <$> preparer
    ∧ business_address r = Some (String.concat " " filer)
    ∧ preparer_address r = Some (String.concat " " preparer).
Proof.
  rewrite parse_return_joins.
  intros (ba & (filer & ? & ->)%safe_text_Plural_Ok
          & (pa1 & (preparer & ? & ->)%safe_text_Plural_Ok
             & (pa2 & _ & [= <-])%bind_Ok)%bind_Ok)%bind_Ok.
  by exists filer, preparer.
Qed.

Lemma parse_return_addresses_witness :
  ∃ r,
    parse_return legacy_preparer_doc "201300019349300000_public.xml" = Ok r
    ∧ length (findall legacy_preparer_doc [Desc "PreparerFirmUSAddress"; Star])
      = 2
    ∧ preparer_address r = Some "".
Proof.
  destruct (parse_return legacy_preparer_doc "201300019349300000_public.xml")
    as [r|e] eqn:Hparse; [|by vm_compute in Hparse].
  exists r. split; [done|]. split; [reflexivity|].
  destruct (parse_return_addresses _ _ _ Hparse)
    as (filer & preparer & _ & Hpreparer & _ & ->).
  by destruct preparer.
Defined.

(** ** [parse_officers] *)

Lemma officer_fields_joins officer :
  officer_fields officer =
  n2 ← safe_text (Plural (findall officer [Desc "BusinessName"; Star]));
  a ← safe_text (Plural (findall officer [Desc "USAddress"; Star]));
  mret (<["address" := a]>
         (<["title" :=
              coalesce [looked_up (find officer [Child "TitleTxt"]);
                        looked_up (find officer [Child "Title"])]]>
           (<["name" :=
                coalesce [looked_up (find officer [Child "PersonNm"]);
                          n2;
                          looked_up (find officer [Child "PersonName"])]]>
             (∅ : dict)))).
Proof. unfold officer_fields, looked_up. by rewrite !safe_text_of_find. Qed.

Lemma officer_fields_Raise officer e :
  officer_fields officer = Raise e → e = TypeError.
Proof.
  rewrite officer_fields_joins.
  intros [[-> _]%safe_text_Plural_Raise
         | (n2 & _ & [[-> _]%safe_text_Plural_Raise
         | (a & _ & ?)]%bind_Raise)]%bind_Raise; done.
Qed.

Lemma officers_loop_Raise root e :
  for_records officer_fields (listed_officers root) [] = Raise e →
  e = TypeError ∧ listed_officers root ≠ [].
Proof.
  intros Hloop. split.
  - apply for_records_Raise in Hloop as (officer & _ & ?).
    by eapply officer_fields_Raise.
  - intros Hnil. by rewrite Hnil in Hloop.
Qed.

Lemma parse_officers_Ok_cons root fname records :
  parse_officers root fname = Ok records → records ≠ [].
Proof.
  unfold parse_officers.
  intros (loop & _ & Hrest)%bind_Ok. destruct loop as [|r loop]; simpl in *.
  - apply bind_Ok in Hrest as (fields & _ & [= <-]). done.
  - injection Hrest as <-. done.
Qed.

(** X7. [parse_officers] never returns an empty list: it returns at least
    one record or it raises. *)
Theorem parse_officers_never_empty root fname records :
  parse_officers root fname = Ok records → records ≠ [].
Proof. apply parse_officers_Ok_cons. Qed.

Lemma parse_officers_never_empty_witness :
  ∃ records,
    parse_officers header_officer_doc "202100019349300000_public.xml"
    = Ok records
    ∧ records ≠ [].
Proof.
  destruct (parse_officers header_officer_doc "202100019349300000_public.xml")
    as [records|e] eqn:Hparse; [|by vm_compute in Hparse].
  exists records. split; [done|].
  exact (parse_officers_never_empty _ _ _ Hparse).
Defined.

Lemma parse_officers_Raise root fname e :
  parse_officers root fname = Raise e →
  (e = AttributeError ∧ listed_officers root = []
   ∧ header_officer root = None)
  ∨ (e = TypeError ∧ listed_officers root ≠ []).
Proof.
  destruct (listed_officers root) as [|o os] eqn:Hlisted.
  - rewrite parse_officers_fallback by done.
    destruct (header_officer root) as [officer|] eqn:Hheader.
    + by rewrite (header_officer_fields_present _ _ Hheader).
    + rewrite header_officer_fields_missing by done.
      intros [= <-]. by left.
  - rewrite parse_officers_listed by (by rewrite Hlisted).
    intros [-> _]%officers_loop_Raise. by right.
Qed.

(** X8. [parse_officers] raises [AttributeError] exactly on the documents
    with no listed officer and no header officer; any other exception it
    raises is the [TypeError] of a join, and then a listed officer
    exists. *)
Theorem parse_officers_exceptions root fname :
  (parse_officers root fname = Raise AttributeError ↔
   listed_officers root = [] ∧ header_officer root = None)
  ∧ (∀ e, parse_officers root fname = Raise e →
          e = AttributeError ∨ (e = TypeError ∧ listed_officers root ≠ [])).
Proof.
  split.
  - split.
    + intros [(_ & ? & ?) | (? & _)]%parse_officers_Raise; done.
    + intros [? ?]. by apply parse_officers_no_officer.
  - intros e [(-> & _) | ?]%parse_officers_Raise; [by left | by right].
Qed.

(** X9. When officers are listed and [parse_officers] returns, it returns
    one record per listed officer, in scan order: all matches of the first
    variant in document order, then those of the second, and so on. *)
Theorem parse_officers_one_per_listed root fname records :
  listed_officers root ≠ [] →
  parse_officers root fname = Ok records →
  Forall2 (λ officer r, officer_fields officer = Ok r)
    (listed_officers root) records.
Proof.
  intros Hlisted. rewrite parse_officers_listed by done.
  by intros (new & -> & ?)%for_records_Ok.
Qed.

Lemma parse_officers_one_per_listed_witness :
  ∃ records,
    tag <$> children (Elem "ReturnData" None
                        (flat_map children (children two_variant_officers_doc)))
    = ["Form990PartVIISectionAGrp"; "OfficerDirTrstKeyEmplGrp"]
    ∧ tag <$> listed_officers two_variant_officers_doc
      = ["OfficerDirTrstKeyEmplGrp"; "Form990PartVIISectionAGrp"]
    ∧ parse_officers two_variant_officers_doc "a.xml" = Ok records
    ∧ Forall2 (λ officer r, officer_fields officer = Ok r)
        (listed_officers two_variant_officers_doc) records.
Proof.
  destruct (parse_officers two_variant_officers_doc "a.xml")
    as [records|e] eqn:Hparse; [|by vm_compute in Hparse].
  exists records. split_and!; [reflexivity | reflexivity | done |].
  apply (parse_officers_one_per_listed two_variant_officers_doc "a.xml");
    [by vm_compute | exact Hparse].
Defined.

(** X10. Without listed officers and with a header officer,
    [parse_officers] returns exactly one record: its address is the empty
    string, its name and title come from the header officer
    ([BusinessOfficerGrp] if there is one, else [Officer]). *)
Theorem parse_officers_header_record root fname officer :
  listed_officers root = [] →
  header_officer root = Some officer →
  parse_officers root fname
  = Ok [<["address" := Some ""]>
         (<["title" :=
              coalesced_lookup (find officer [Child "PersonTitleTxt"])
                (find officer [Child "Title"])]>
           (<["name" :=
                coalesced_lookup (find officer [Child "PersonNm"])
                  (find officer [Child "Name"])]>
             (∅ : dict)))].
Proof.
  intros Hlisted Hheader. rewrite parse_officers_fallback by done.
  rewrite (header_officer_fields_present _ _ Hheader).
  fold (looked_up (find officer [Child "PersonTitleTxt"])).
  fold (looked_up (find officer [Child "Title"])).
  fold (looked_up (find officer [Child "PersonNm"])).
  fold (looked_up (find officer [Child "Name"])).
  by rewrite !coalesce_looked_up.
Qed.

Lemma parse_officers_header_record_witness :
  listed_officers header_officer_doc = []
  ∧ parse_officers header_officer_doc "202100019349300000_public.xml"
    = Ok [<["address" := Some ""]>
           (<["title" := Some "CFO"]>
             (<["name" := Some "Jane Doe"]> (∅ : dict)))].
Proof.
  split; [reflexivity|].
  exact (parse_officers_header_record header_officer_doc
           "202100019349300000_public.xml"
           (Elem "BusinessOfficerGrp" None
              [Elem "PersonNm" (Some "Jane Doe") [];
               Elem "PersonTitleTxt" (Some "CFO") []])
           eq_refl eq_refl).
Defined.

(** X11. The record of a listed officer.  The name is the text of
    [PersonNm]; the joined business name is used only when [PersonNm] is
    present without text, and [PersonName] never: an officer that has no
    [PersonNm] element gets the empty name.  The address is the join of
    the address sub-elements. *)
Theorem officer_fields_record officer r :
  officer_fields officer = Ok r →
  ∃ business address,
    text <$> findall officer [Desc "BusinessName"; Star] = Some <$> business
    ∧ text <$> findall officer [Desc "USAddress"; Star] = Some <$> address
    ∧ r = <["address" := Some (String.concat " " address)]>
            (<["title" :=
                 coalesced_lookup (find officer [Child "TitleTxt"])
                   (find officer [Child "Title"])]>
              (<["name" :=
                   name_or_joined (find officer [Child "PersonNm"])
                     (String.concat " " business)]>
                (∅ : dict))).
Proof.
  rewrite officer_fields_joins.
  intros (n2 & (business & ? & ->)%safe_text_Plural_Ok
          & (a & (address & ? & ->)%safe_text_Plural_Ok
             & [= <-])%bind_Ok)%bind_Ok.
  exists business, address. split_and!; [done..|].
  change (match looked_up (find officer [Child "TitleTxt"]) with
          | Some s => Some s
          | None => match looked_up (find officer [Child "Title"]) with
                    | Some s => Some s
                    | None => None
                    end
          end)
    with (coalesce [looked_up (find officer [Child "TitleTxt"]);
                    looked_up (find officer [Child "Title"])]).
  rewrite coalesce_looked_up. do 2 f_equal.
  by destruct (find officer [Child "PersonNm"]) as [[t [s|] cs]|].
Qed.

Lemma officer_fields_record_witness :
  ∃ officer r,
    listed_officers two_variant_officers_doc !! 1 = Some officer
    ∧ (text <$> find officer [Desc "BusinessName"; Star])
      = Some (Some "Acme Trust Co")
    ∧ officer_fields officer = Ok r
    ∧ r !! "name" = Some (Some "").
Proof.
  destruct (listed_officers two_variant_officers_doc !! 1)
    as [officer|] eqn:Hofficer; [|by vm_compute in Hofficer].
  injection Hofficer as Hofficer.
  destruct (officer_fields officer) as [r|e] eqn:Hfields;
    [|by subst officer; vm_compute in Hfields].
  exists officer, r. split_and!; [done | by subst officer | done |].
  destruct (officer_fields_record _ _ Hfields)
    as (business & address & _ & _ & ->).
  subst officer. reflexivity.
Defined.

(** ** [parse_grants] *)

Lemma grant_fields_joins grant :
  grant_fields grant =
  n2 ← safe_text (Plural (findall grant [Desc "RecipientBusinessName"; Star]));
  a ← safe_text (Plural (findall grant [Desc "RecipientUSAddress"; Star]));
  mret (<["amount" := looked_up (find grant [Child "Amt"])]>
         (<["purpose" :=
              looked_up (find grant [Desc "GrantOrContributionPurposeTxt"])]>
           (<["recipient_address" := a]>
             (<["recipient_name" :=
                  coalesce [looked_up (find grant [Child "RecipientPersonNm"]);
                            n2]]>
               (∅ : dict))))).
Proof. unfold grant_fields, looked_up. by rewrite !safe_text_of_find. Qed.

Lemma grant_fields_returns grant :
  returns (grant_fields grant) ↔
  ∀ path e, path ∈ joined_grant_paths → e ∈ findall grant path →
            is_Some (text e).
Proof.
  rewrite grant_fields_joins, returns_bind. unfold joined_grant_paths. split.
  - intros (n2 & Hn2 & (a & Ha & _)%returns_bind) path e Hpath He.
    assert (returns (safe_text (Plural (findall grant path)))) as Hret.
    { rewrite !elem_of_cons, elem_of_nil in Hpath.
      destruct Hpath as [->|[->|[]]]; eexists; eassumption. }
    apply safe_text_Plural_returns in Hret.
    rewrite Forall_forall in Hret. by apply Hret.
  - intros Hall.
    assert (∀ path, path ∈ joined_grant_paths →
                    returns (safe_text (Plural (findall grant path)))) as Hret.
    { intros path Hpath. apply safe_text_Plural_returns, Forall_forall. eauto. }
    unfold joined_grant_paths in Hret.
    destruct (Hret [Desc "RecipientBusinessName"; Star]) as [n2 Hn2];
      [apply list_elem_of_here|].
    destruct (Hret [Desc "RecipientUSAddress"; Star]) as [a Ha];
      [apply list_elem_of_further, list_elem_of_here|].
    exists n2. split; [done|]. rewrite Ha. apply returns_Ok.
Qed.

Lemma grant_fields_Raise grant e :
  grant_fields grant = Raise e → e = TypeError.
Proof.
  rewrite grant_fields_joins.
  intros [[-> _]%safe_text_Plural_Raise
         | (n2 & _ & [[-> _]%safe_text_Plural_Raise
         | (a & _ & ?)]%bind_Raise)]%bind_Raise; done.
Qed.

Lemma for_records_returns {A} (body : A → result dict) xs records :
  returns (for_records body xs records) ↔ ∀ x, x ∈ xs → returns (body x).
Proof.
  revert records. induction xs as [|x xs IH]; intros records; simpl.
  - split; [by intros _ ? ?%elem_of_nil | intros _; apply returns_Ok].
  - rewrite returns_bind. split.
    + intros (r & Hr & Hrest) y [->|?]%elem_of_cons; [by exists r|].
      by apply (proj1 (IH _) Hrest).
    + intros Hall. destruct (Hall x) as [r Hr]; [apply list_elem_of_here|].
      exists r. split; [done|]. apply IH. intros y Hy. apply Hall.
      by apply list_elem_of_further.
Qed.

(** X12. [parse_grants] returns exactly when, in every grant structure
    found, all sub-elements of the recipient's business name and address
    carry text; it then returns one record per grant structure, in document
    order (none for a document without grants).  The only exception it
    raises is [TypeError]. *)
Theorem parse_grants_outcome root fname :
  (returns (parse_grants root fname) ↔
   ∀ grant path e,
     grant ∈ findall root [Desc "GrantOrContributionPdDurYrGrp"] →
     path ∈ joined_grant_paths → e ∈ findall grant path → is_Some (text e))
  ∧ (∀ records, parse_grants root fname = Ok records →
       Forall2 (λ grant r, grant_fields grant = Ok r)
         (findall root [Desc "GrantOrContributionPdDurYrGrp"]) records)
  ∧ (∀ e, parse_grants root fname = Raise e → e = TypeError).
Proof.
  split_and!.
  - unfold parse_grants. rewrite for_records_returns.
    setoid_rewrite grant_fields_returns. naive_solver.
  - intros records. by rewrite parse_grants_Ok.
  - intros e (grant & _ & ?)%for_records_Raise. by eapply grant_fields_Raise.
Qed.

(** X13. The record of a grant.  The recipient name is the text of
    [RecipientPersonNm]; the joined business name is used only when that
    element is present without text, so a grant to an organisation, which
    has no [RecipientPersonNm], gets the empty recipient name.  The amount
    is the text of the grant's own [Amt] child, unparsed, and the purpose
    that of the first [GrantOrContributionPurposeTxt] below the grant. *)
Theorem grant_fields_record grant r :
  grant_fields grant = Ok r →
  ∃ business address,
    text <$> findall grant [Desc "RecipientBusinessName"; Star]
    = Some <$> business
    ∧ text <$> findall grant [Desc "RecipientUSAddress"; Star]
      = Some <$> address
    ∧ r = <["amount" := looked_up (find grant [Child "Amt"])]>
            (<["purpose" :=
                 looked_up (find grant [Desc "GrantOrContributionPurposeTxt"])]>
              (<["recipient_address" := Some (String.concat " " address)]>
                (<["recipient_name" :=
                     name_or_joined (find grant [Child "RecipientPersonNm"])
                       (String.concat " " business)]>
                  (∅ : dict)))).
Proof.
  rewrite grant_fields_joins.
  intros (n2 & (business & ? & ->)%safe_text_Plural_Ok
          & (a & (address & ? & ->)%safe_text_Plural_Ok
             & [= <-])%bind_Ok)%bind_Ok.
  exists business, address. split_and!; [done..|]. do 4 f_equal.
  by destruct (find grant [Child "RecipientPersonNm"]) as [[t [s|] cs]|].
Qed.

Lemma grant_fields_record_witness :
  ∃ r,
    grant_fields business_grant = Ok r
    ∧ r !! "recipient_name" = Some (Some "")
    ∧ r !! "recipient_address" = Some (Some "2 Mill Rd Troy")
    ∧ r !! "amount" = Some (Some "500").
Proof.
  destruct (grant_fields business_grant) as [r|e] eqn:Hfields;
    [|by vm_compute in Hfields].
  exists r. split; [done|].
  destruct (grant_fields_record _ _ Hfields)
    as (business & address & Hbusiness & Haddress & ->).
  destruct business as [|b1 [|? ?]]; try discriminate Hbusiness.
  destruct address as [|a1 [|a2 [|? ?]]]; try discriminate Haddress.
  injection Haddress as <- <-. split_and!; reflexivity.
Defined.

(** ** [return_tree] *)

Lemma officer_fields_returns officer :
  returns (officer_fields officer) ↔
  ∀ path e, path ∈ joined_officer_paths → e ∈ findall officer path →
            is_Some (text e).
Proof.
  rewrite officer_fields_joins, returns_bind. unfold joined_officer_paths.
  split.
  - intros (n2 & Hn2 & (a & Ha & _)%returns_bind) path e Hpath He.
    assert (returns (safe_text (Plural (findall officer path)))) as Hret.
    { rewrite !elem_of_cons, elem_of_nil in Hpath.
      destruct Hpath as [->|[->|[]]]; eexists; eassumption. }
    apply safe_text_Plural_returns in Hret.
    rewrite Forall_forall in Hret. by apply Hret.
  - intros Hall.
    assert (∀ path, path ∈ joined_officer_paths →
                    returns (safe_text (Plural (findall officer path))))
      as Hret.
    { intros path Hpath. apply safe_text_Plural_returns, Forall_forall. eauto. }
    unfold joined_officer_paths in Hret.
    destruct (Hret [Desc "BusinessName"; Star]) as [n2 Hn2];
      [apply list_elem_of_here|].
    destruct (Hret [Desc "USAddress"; Star]) as [a Ha];
      [apply list_elem_of_further, list_elem_of_here|].
    exists n2. split; [done|]. rewrite Ha. apply returns_Ok.
Qed.

Lemma parse_officers_returns root fname :
  returns (parse_officers root fname) ↔
  if is_empty (listed_officers root) then is_Some (header_officer root)
  else ∀ officer path e,
         officer ∈ listed_officers root → path ∈ joined_officer_paths →
         e ∈ findall officer path → is_Some (text e).
Proof.
  destruct (listed_officers root) as [|o os] eqn:Hlisted; simpl.
  - rewrite parse_officers_fallback by done.
    destruct (header_officer root) as [officer|] eqn:Hheader.
    + rewrite (header_officer_fields_present _ _ Hheader). simpl.
      split; [by eexists | intros _; apply returns_Ok].
    + rewrite header_officer_fields_missing by done. simpl.
      split; [by intros ?%returns_Raise | by intros [? ?]].
  - rewrite parse_officers_listed by (by rewrite Hlisted).
    rewrite Hlisted, for_records_returns.
    setoid_rewrite officer_fields_returns. naive_solver.
Qed.

Lemma parse_grants_returns root fname :
  returns (parse_grants root fname) ↔
  ∀ grant path e,
    grant ∈ findall root [Desc "GrantOrContributionPdDurYrGrp"] →
    path ∈ joined_grant_paths → e ∈ findall grant path → is_Some (text e).
Proof.
  unfold parse_grants. rewrite for_records_returns.
  setoid_rewrite grant_fields_returns. naive_solver.
Qed.

Lemma parse_grants_Raise root fname e :
  parse_grants root fname = Raise e → e = TypeError.
Proof.
  intros (grant & _ & ?)%for_records_Raise. by eapply grant_fields_Raise.
Qed.

Lemma return_tree_Ok root fname t :
  return_tree root fname = Ok t ↔
  parse_return root fname = Ok (header t)
  ∧ parse_officers root fname = Ok (officers t)
  ∧ parse_grants root fname = Ok (grants t).
Proof.
  unfold return_tree. split.
  - by intros (h & ? & (os & ? & (gs & ? & [= <-])%bind_Ok)%bind_Ok)%bind_Ok.
  - intros (Hh & Hos & Hgs). rewrite Hh, Hos, Hgs. by destruct t.
Qed.

Lemma return_tree_src_fname root fname t :
  return_tree root fname = Ok t → src_fname (header t) = fname.
Proof. intros (? & _)%return_tree_Ok. by eapply parse_return_src_fname. Qed.

(** X14. A tree that [return_tree] returns holds the three parsers' results:
    its header carries the member name, it has at least one officer record
    and exactly one grant record per grant structure of the document. *)
Theorem return_tree_record root fname t :
  return_tree root fname = Ok t →
  parse_return root fname = Ok (header t)
  ∧ parse_officers root fname = Ok (officers t)
  ∧ parse_grants root fname = Ok (grants t)
  ∧ src_fname (header t) = fname
  ∧ officers t ≠ []
  ∧ length (grants t)
    = length (findall root [Desc "GrantOrContributionPdDurYrGrp"]).
Proof.
  intros Htree. pose proof Htree as (Hh & Hos & Hgs)%return_tree_Ok.
  split_and!; [done..| | |].
  - by eapply return_tree_src_fname.
  - by eapply parse_officers_Ok_cons.
  - apply parse_grants_Ok in Hgs. by rewrite (Forall2_length _ _ _ Hgs).
Qed.

Lemma return_tree_record_witness :
  ∃ t,
    return_tree header_officer_doc "202100019349300000_public.xml" = Ok t
    ∧ src_fname (header t) = "202100019349300000_public.xml"
    ∧ officers t ≠ []
    ∧ length (grants t) = 2.
Proof.
  destruct (return_tree header_officer_doc "202100019349300000_public.xml")
    as [t|e] eqn:Htree; [|by vm_compute in Htree].
  exists t. split; [done|].
  destruct (return_tree_record _ _ _ Htree) as (_ & _ & _ & ? & ? & Hlen).
  split_and!; [done..|]. rewrite Hlen. by vm_compute.
Defined.

(** X15. [return_tree] returns exactly on the documents on which each of the
    three parsers returns: every sub-element joined for the header, for a
    listed officer or for a grant carries text, and the document lists an
    officer or has a header officer. *)
Theorem return_tree_returns root fname :
  returns (return_tree root fname) ↔
  (∀ path e, path ∈ joined_header_paths → e ∈ findall root path →
             is_Some (text e))
  ∧ (if is_empty (listed_officers root) then is_Some (header_officer root)
     else ∀ officer path e,
            officer ∈ listed_officers root → path ∈ joined_officer_paths →
            e ∈ findall officer path → is_Some (text e))
  ∧ (∀ grant path e,
       grant ∈ findall root [Desc "GrantOrContributionPdDurYrGrp"] →
       path ∈ joined_grant_paths → e ∈ findall grant path →
       is_Some (text e)).
Proof.
  rewrite <-parse_return_returns, <-(parse_officers_returns root fname),
    <-(parse_grants_returns root fname).
  unfold return_tree. rewrite returns_bind. split.
  - intros (h & Hh & (os & Hos & (gs & Hgs & _)%returns_bind)%returns_bind).
    split_and!; eexists; eassumption.
  - intros ([h Hh] & [os Hos] & [gs Hgs]). exists h. split; [done|].
    rewrite Hos, Hgs. apply returns_Ok.
Qed.

(** X16. The parsers run in the order header, officers, grants, and the first
    exception ends [return_tree]: it raises [AttributeError] exactly when
    the header parses and the document has neither a listed nor a header
    officer, whatever its grants are; a header that does not parse raises
    [TypeError] also on a document without officers. *)
Theorem return_tree_AttributeError root fname :
  return_tree root fname = Raise AttributeError ↔
  returns (parse_return root fname)
  ∧ listed_officers root = [] ∧ header_officer root = None.
Proof.
  unfold return_tree. split.
  - intros [?%parse_return_Raise | (h & Hh & Hrest)]%bind_Raise; [done|].
    apply bind_Raise in Hrest
      as [[(_ & ? & ?) | (? & _)]%parse_officers_Raise | (os & _ & Hrest)];
      [by split; [exists h|] | done |].
    by apply bind_Raise in Hrest as [?%parse_grants_Raise | (gs & _ & ?)].
  - intros ([h Hh] & Hlisted & Hheader).
    by rewrite Hh, (parse_officers_no_officer _ _ Hlisted Hheader).
Qed.

(** ** The main loop *)

Lemma data_tree_Ok members acc ts :
  data_tree members acc = Ok ts ↔
  ∃ new, ts = acc ++ new
         ∧ Forall2 (λ m t, return_tree m.2 m.1 = Ok t) members new.
Proof.
  revert acc. induction members as [|[fname xml_root] members IH];
    intros acc; simpl.
  - split.
    + intros [= <-]. exists []. by rewrite app_nil_r.
    + intros (new & -> & ->%Forall2_nil_inv_l). by rewrite app_nil_r.
  - rewrite bind_Ok. split.
    + intros (t & Ht & (new & -> & Hnew)%IH). exists (t :: new).
      rewrite <-app_assoc. split; [done | by constructor].
    + intros (new & -> & (t & new' & Ht & Hnew & ->)%Forall2_cons_inv_l).
      exists t. split; [done|]. apply IH. exists new'.
      by rewrite <-app_assoc.
Qed.


(** X17. When the loop over an archive completes, the data tree has one tree
    per member, in the order of the members, each the result of
    [return_tree] on that member and carrying the member's name. *)
Theorem data_tree_one_per_member members ts :
  data_tree members [] = Ok ts →
  Forall2 (λ m t, return_tree m.2 m.1 = Ok t ∧ src_fname (header t) = m.1)
    members ts.
Proof.
  intros (new & -> & Hnew)%data_tree_Ok. simpl.
  eapply Forall2_impl; [exact Hnew|]. intros m t Ht. split; [done|].
  exact (return_tree_src_fname _ _ _ Ht).
Qed.

Lemma data_tree_one_per_member_witness :
  ∃ ts,
    data_tree [("a.xml", header_officer_doc); ("b.xml", two_variant_officers_doc)]
      [] = Ok ts
    ∧ (λ t, src_fname (header t)) <$> ts = ["a.xml"; "b.xml"].
Proof.
  destruct (data_tree [("a.xml", header_officer_doc);
                       ("b.xml", two_variant_officers_doc)] [])
    as [ts|e] eqn:Hloop; [|by vm_compute in Hloop].
  exists ts. split; [done|].
  pose proof (data_tree_one_per_member _ _ Hloop) as Hall.
  apply Forall2_cons_inv_l in Hall as (t1 & ts1 & [_ H1] & Hall & ->).
  apply Forall2_cons_inv_l in Hall as (t2 & ts2 & [_ H2] & Hall & ->).
  apply Forall2_nil_inv_l in Hall as ->. simpl in *. by rewrite H1, H2.
Defined.


(** ** Archive names *)

Lemma split_length sep s : length (split sep s) = S (occurrences sep s).
Proof.
  induction s as [|c s IH]; simpl; [done|].
  destruct (Ascii.eqb c sep); simpl; [by rewrite IH|].
  destruct (split sep s); simpl in *; [done | exact IH].
Qed.

Lemma occurrences_cons_0 sep c s :
  occurrences sep (String c s) = 0 →
  Ascii.eqb c sep = false ∧ occurrences sep s = 0.
Proof. simpl. destruct (Ascii.eqb c sep); simpl; [done | by split]. Qed.

(** Up to the first separator. *)
Lemma split_app_sep sep a b :
  occurrences sep a = 0 →
  split sep (a +:+ String sep b) = a :: split sep b.
Proof.
  induction a as [|c a IH]; simpl.
  - intros _. by rewrite Ascii.eqb_refl.
  - intros [Hc Ha]%occurrences_cons_0. by rewrite Hc, IH.
Qed.

Lemma split_head_app sep a b :
  occurrences sep a = 0 →
  split sep (a +:+ b) !! 0 = (λ w, a +:+ w) <$> split sep b !! 0.
Proof.
  induction a as [|c a IH].
  - intros _. change ("" +:+ b) with b. by destruct (split sep b).
  - intros [Hc Ha]%occurrences_cons_0. specialize (IH Ha).
    change (String c a +:+ b) with (String c (a +:+ b)).
    cbn [split]. rewrite Hc.
    pose proof (split_length sep (a +:+ b)) as Hlen.
    destruct (split sep (a +:+ b)), (split sep b); simplify_eq/=; done.
Qed.

(** X19. For an archive named [<a>_<y>_<p>.<ext>], where [a], [y] and [p] have
    no underscore and [p] has no dot, the main code takes [y] as the year
    and [p] as the part, whatever the extension is. *)
Theorem archive_name_fields a y p ext :
  occurrences "_" a = 0 →
  occurrences "_" y = 0 →
  occurrences "_" p = 0 →
  occurrences "." p = 0 →
  year (a +:+ "_" +:+ y +:+ "_" +:+ p +:+ "." +:+ ext) = Some y
  ∧ part (a +:+ "_" +:+ y +:+ "_" +:+ p +:+ "." +:+ ext) = Some p.
Proof.
  intros Ha Hy Hp Hdot. unfold year, part.
  change (a +:+ "_" +:+ y +:+ "_" +:+ p +:+ "." +:+ ext)
    with (a +:+ String "_" (y +:+ String "_" (p +:+ String "." ext))).
  rewrite !split_app_sep by done. split; [done|].
  change ((a :: y :: split "_" (p +:+ String "." ext)) !! 2)
    with (split "_" (p +:+ String "." ext) !! 0).
  rewrite split_head_app by done. simpl.
  destruct (split "_" ext) as [|w ws]; simpl; by rewrite split_app_sep.
Qed.

Lemma archive_name_fields_witness :
  year "download990xml_2020_1.zip" = Some "2020"
  ∧ part "download990xml_2020_1.zip" = Some "1".
Proof.
  exact (archive_name_fields "download990xml" "2020" "1" "zip"
           eq_refl eq_refl eq_refl eq_refl).
Defined.

(** X20. The indexing of the pieces is unchecked: the year's index is out of
    range exactly for a name without underscore, the part's exactly for a
    name with fewer than two; the further split at the dot never fails. *)
Theorem archive_name_index_errors name :
  (year name = None ↔ occurrences "_" name = 0)
  ∧ (part name = None ↔ occurrences "_" name < 2).
Proof.
  unfold year, part. split.
  - rewrite lookup_ge_None, split_length. lia.
  - destruct (split "_" name !! 2) as [piece|] eqn:Hpiece; simpl.
    + apply lookup_lt_Some in Hpiece. rewrite split_length in Hpiece.
      pose proof (split_length "." piece) as Hlen.
      destruct (split "." piece); simpl in *; [done|]. split; [done | lia].
    + apply lookup_ge_None in Hpiece. rewrite split_length in Hpiece.
      split; [lia | done].
Qed.

(** ** [export_to_csv], continued *)

(** X21. The loop of [export_to_csv] writes the key ['src_fname'] and nothing
    else: it neither creates nor removes a dictionary, leaves every other
    key of every dictionary as it was, and does not touch a dictionary that
    no record refers to. *)
Theorem export_to_csv_frame σ rs o :
  let σ' := (export_to_csv σ rs).1 in
  (is_Some (σ' !! o) ↔ is_Some (σ !! o))
  ∧ (∀ k, k ≠ "src_fname" →
          (σ' !! o) ≫= (λ d, d !! k) = (σ !! o) ≫= (λ d, d !! k))
  ∧ ((∀ r, r ∈ rs → o ∉ officers r ++ grants r) → σ' !! o = σ !! o).
Proof.
  simpl. rewrite export_to_csv_store. split_and!.
  - destruct (last_parent rs o), (σ !! o); simpl;
      by rewrite ?fmap_is_Some, <-?not_eq_None_Some.
  - intros k Hk. destruct (last_parent rs o), (σ !! o); simpl; [|done..].
    by rewrite lookup_insert_ne.
  - intros Hfree. unfold last_parent.
    destruct (last (filter _ rs)) as [r|] eqn:Hlast; [|done].
    apply last_Some_elem_of, list_elem_of_filter in Hlast as [Ho Hr].
    by destruct (Hfree r Hr).
Qed.

(** Allocation: the references returned are fresh, hold the dictionaries
    given, and the store below [next] is left alone. *)
Lemma alloc_spec ds next σ refs next' σ' :
  alloc ds next σ = (refs, next', σ') →
  next ≤ next'
  ∧ Forall2 (λ d o, σ' !! o = Some d) ds refs
  ∧ Forall (λ o, next ≤ o < next') refs
  ∧ (∀ o, o < next → σ' !! o = σ !! o).
Proof.
  revert next σ refs next' σ'.
  induction ds as [|d ds IH]; intros next σ refs next' σ'; simpl.
  - intros [= <- <- <-]. split_and!; [lia | constructor.. | done].
  - destruct (alloc ds (S next) (<[next:=d]> σ)) as [[refs1 next1] σ1]
      eqn:Halloc.
    intros [= <- <- <-].
    destruct (IH _ _ _ _ _ Halloc) as (Hle & Hrefs & Hbounds & Hframe).
    split_and!.
    + lia.
    + constructor; [|done].
      rewrite Hframe by lia. apply lookup_insert_eq.
    + constructor; [lia|].
      eapply Forall_impl; [exact Hbounds|]. simpl. lia.
    + intros o Ho. rewrite Hframe by lia. apply lookup_insert_ne. lia.
Qed.

Lemma Forall2_frame (σ σ' : store) (ds : list dict) refs n :
  Forall2 (λ d o, σ !! o = Some d) ds refs →
  Forall (λ o, o < n) refs →
  (∀ o, o < n → σ' !! o = σ !! o) →
  Forall2 (λ d o, σ' !! o = Some d) ds refs.
Proof.
  intros Hrefs Hbounds Hframe. induction Hrefs as [|d o ds refs Ho Hrefs IH].
  - constructor.
  - apply Forall_cons in Hbounds as [Hlt Hbounds].
    constructor; [by rewrite Hframe | by apply IH].
Qed.

(** Laying out trees: every nested dictionary gets a location of its own,
    at or above [next], which holds it in the store returned. *)
Lemma load_spec ts next σ rs σ' :
  load ts next σ = (rs, σ') →
  Forall2 (λ t r,
      header r = header t
      ∧ Forall2 (λ d o, σ' !! o = Some d) (officers t) (officers r)
      ∧ Forall2 (λ d o, σ' !! o = Some d) (grants t) (grants r)) ts rs
  ∧ (∀ r o, r ∈ rs → o ∈ officers r ++ grants r → next ≤ o)
  ∧ (∀ o, o < next → σ' !! o = σ !! o)
  ∧ (∀ r r' o, r ∈ rs → r' ∈ rs →
       o ∈ officers r ++ grants r → o ∈ officers r' ++ grants r' →
       src_fname (header r') = src_fname (header r)).
Proof.
  revert next σ rs σ'.
  induction ts as [|t ts IH]; intros next σ rs σ'; simpl.
  - intros [= <- <-]. split_and!; [constructor | | done |].
    + by intros r o ?%elem_of_nil.
    + by intros r r' o ?%elem_of_nil.
  - destruct (alloc (officers t) next σ) as [[os next1] σ1] eqn:Hos.
    destruct (alloc (grants t) next1 σ1) as [[gs next2] σ2] eqn:Hgs.
    destruct (load ts next2 σ2) as [rs' σ3] eqn:Hload.
    intros [= <- <-].
    destruct (alloc_spec _ _ _ _ _ _ Hos) as (Hle1 & Hos1 & Hb1 & Hf1).
    destruct (alloc_spec _ _ _ _ _ _ Hgs) as (Hle2 & Hgs2 & Hb2 & Hf2).
    destruct (IH _ _ _ _ Hload) as (Hrs & Hlow & Hf3 & Hclash).
    assert (∀ o, o ∈ os ++ gs → next ≤ o < next2) as Hhead.
    { intros o [Ho|Ho]%elem_of_app.
      - rewrite Forall_forall in Hb1. specialize (Hb1 o Ho). lia.
      - rewrite Forall_forall in Hb2. specialize (Hb2 o Ho). lia. }
    split_and!.
    + constructor; [|done]. simpl. split_and!; [done| |].
      * eapply Forall2_frame; [exact Hos1| |].
        -- eapply Forall_impl; [exact Hb1|]. simpl. intros o ?.
           instantiate (1 := next1). lia.
        -- intros o Ho. rewrite Hf3 by lia. by apply Hf2.
      * eapply Forall2_frame; [exact Hgs2| |exact Hf3].
        eapply Forall_impl; [exact Hb2|]. simpl. lia.
    + intros r o [->|Hr]%elem_of_cons Ho.
      * simpl in Ho. apply Hhead in Ho. lia.
      * specialize (Hlow r o Hr Ho). lia.
    + intros o Ho. rewrite Hf3, Hf2, Hf1 by lia. done.
    + intros r r' o [->|Hr]%elem_of_cons [->|Hr']%elem_of_cons Ho Ho'.
      * done.
      * simpl in Ho. apply Hhead in Ho. specialize (Hlow r' o Hr' Ho'). lia.
      * simpl in Ho'. apply Hhead in Ho'. specialize (Hlow r o Hr Ho). lia.
      * by eapply Hclash.
Qed.

(** X22. Trees of freshly built dictionaries, as [return_tree] builds them, come
    out of the loop of [export_to_csv] with their rows keyed correctly:
    every officer and grant dictionary is the parsed record with
    ['src_fname'] set to the name of its own return. *)
Theorem export_to_csv_keys_fresh_trees ts :
  let rs := (load ts 0 ∅).1 in
  let σ' := (export_to_csv (load ts 0 ∅).2 rs).1 in
  Forall2 (λ t r,
      header r = header t
      ∧ Forall2 (λ d o,
            σ' !! o = Some (<["src_fname" := Some (src_fname (header t))]> d))
          (officers t) (officers r)
      ∧ Forall2 (λ d o,
            σ' !! o = Some (<["src_fname" := Some (src_fname (header t))]> d))
          (grants t) (grants r)) ts rs.
Proof.
  destruct (load ts 0 ∅) as [rs σ] eqn:Hload. simpl.
  destruct (load_spec _ _ _ _ _ Hload) as (Hrs & _ & _ & Hclash).
  apply Forall2_same_length_lookup. split; [by eapply Forall2_length|].
  intros i t r Ht Hr.
  destruct (Forall2_lookup_lr _ _ _ _ _ _ Hrs Ht Hr) as (Hh & Hos & Hgs).
  apply list_elem_of_lookup_2 in Hr.
  assert (∀ ds refs, Forall2 (λ d o, σ !! o = Some d) ds refs →
            (∀ o, o ∈ refs → o ∈ officers r ++ grants r) →
            Forall2 (λ d o,
                (export_to_csv σ rs).1 !! o
                = Some (<["src_fname" := Some (src_fname (header t))]> d))
              ds refs) as Hkeyed.
  { intros ds refs Hds Hin.
    apply Forall2_same_length_lookup. split; [by eapply Forall2_length|].
    intros j d o Hd Ho.
    pose proof (Forall2_lookup_lr _ _ _ _ _ _ Hds Hd Ho) as Hσ. simpl in Hσ.
    apply list_elem_of_lookup_2 in Ho. rewrite <-Hh.
    apply (export_to_csv_foreign_key σ rs r o d); [done | by apply Hin | | done].
    intros r' Hr' Ho'. by eapply Hclash; [exact Hr | exact Hr' | apply Hin |]. }
  split_and!; [done | |].
  - apply Hkeyed; [done|]. intros o Ho. apply elem_of_app. by left.
  - apply Hkeyed; [done|]. intros o Ho. apply elem_of_app. by right.
Qed.
